(** * The lazy modal registry and its payload contract

    A shallow embedding of
    [packages/shared/src/components/modals/common.tsx]: the registry
    object [modals], and the type-level derivation
    [GetComponentProps], [LazyModalComponentType], [RequiredKeys],
    [NonOptional], [LazyModalType] that decides, for every modal, which
    props a caller has to pass and whether [props] may be left out.

    TypeScript object types are embedded as lists of fields, the type
    operators as functions on these lists, and a conditional type
    [A extends B ? X : Y] as a boolean test.

    After it come the menu of [SquadMemberMenu] with its
    [getUpdateRoleOptions], [onUpdateMember] and memoized [options], the
    [ProviderButton] component, and [getCommentHash] of
    [graphql/comments.ts]. *)

From stdpp Require Import base decidable option list strings gmap fin_maps.
From Stdlib Require Import ZArith.

Open Scope string_scope.

(** ** Object types *)

(** A property of an object type: its name and whether it is declared
    with [?].  The value type of a property is left out: it plays no part
    in the derivation below except through [never], and a component with
    a required prop of type [never] could not be rendered at all. *)
Record Field : Type := mkField {
  fname : string;
  foptional : bool
}.

#[global] Instance Field_eq_dec : EqDecision Field.
Proof. solve_decision. Defined.

Abbreviation ObjectType := (list Field).

(** [name: T] and [name?: T] *)
Definition req (name : string) : Field := mkField name false.
Definition opt (name : string) : Field := mkField name true.

Definition keyof (T : ObjectType) : list string := fname <$> T.

(** [Pick<T, K>] keeps the properties of [T] named in [K], with their
    modifiers; [Omit<T, K>] keeps the others. *)
Definition Pick (T : ObjectType) (K : list string) : ObjectType :=
  filter (λ f, fname f ∈ K) T.

Definition Omit (T : ObjectType) (K : list string) : ObjectType :=
  filter (λ f, fname f ∉ K) T.

(** [Record<string, never> extends T]: a value with no named property is
    accepted by [T] when no property of [T] is required. *)
Definition Record_string_never_extends (T : ObjectType) : bool :=
  forallb foptional T.

(** [T extends Record<string, never>]: every property of [T] would have
    to fit [never], so [T] has no property. *)
Definition extends_Record_string_never (T : ObjectType) : bool :=
  match T with
  | [] => true
  | _ :: _ => false
  end.

(** [RequiredKeys<T>]: the mapped type sends a key [K] to [never] when
    [Record<string, never> extends { [P in K]: T[K] }] and to [K]
    otherwise; indexing by [keyof T] collects what is left.  The inner
    mapped type has the single property [K], with the modifier it has
    in [T]. *)
Definition RequiredKeys (T : ObjectType) : list string :=
  fname <$> filter (λ f, Record_string_never_extends [f] = false) T.

Definition NonOptional (T : ObjectType) : ObjectType :=
  Pick T (RequiredKeys T).

(** ** Component types *)

Inductive ComponentTy : Type :=
  | ComponentType (P : ObjectType)   (* React.ComponentType<P> *)
  | Component (P : ObjectType)       (* React.Component<P> *)
  | NotAComponent.                   (* anything else *)

(** [GetComponentProps<T>]; [None] is the [never] branch. *)
Definition GetComponentProps (T : ComponentTy) : option ObjectType :=
  match T with
  | ComponentType P => Some P
  | Component P => Some P
  | NotAComponent => None
  end.

(** ** The registry *)

(** Modelled from the spec: the enum [LazyModal] is declared in
    [./common/types], which is not among the sources.  Its members are
    the ones [common.tsx] names as keys of [modals];
    [LazyModalComponentType<K extends LazyModal>] indexes [ModalsType]
    by [K], which TypeScript accepts only if the enum has no further
    member. *)
Inductive LazyModal : Type :=
  | SquadMember
  | UpvotedPopup
  | SquadTour
  | ReadingHistory
  | SquadPromotion
  | CreateSharedPost
  | ReportPost
  | ReportComment
  | SquadNotifications.

#[global] Instance LazyModal_eq_dec : EqDecision LazyModal.
Proof. solve_decision. Defined.

(** What [dynamic(() => import(/* webpackChunkName: c */ p))] holds: the
    chunk name and the path of the module whose default export is the
    modal component.  Nothing is fetched when it is built. *)
Record DynamicComponent : Type := dynamic {
  chunkName : string;
  modulePath : string
}.

#[global] Instance DynamicComponent_eq_dec : EqDecision DynamicComponent.
Proof. solve_decision. Defined.

Definition SquadMemberModal : DynamicComponent :=
  dynamic "squadMemberModal" "./SquadMemberModal".
Definition UpvotedPopupModal : DynamicComponent :=
  dynamic "upvotedPopupModal" "./UpvotedPopupModal".
Definition SquadTourModal : DynamicComponent :=
  dynamic "squadTourModal" "./SquadTourModal".
Definition SquadPromotionModal : DynamicComponent :=
  dynamic "squadPromotionModal" "./squads/SquadPromotionModal".
Definition ReadingHistoryModal : DynamicComponent :=
  dynamic "readingHistoryModal" "./post/ReadingHistoryModal".
Definition CreateSharedPostModal : DynamicComponent :=
  dynamic "createSharedPostModal" "./post/CreateSharedPostModal".
Definition ReportPostModal : DynamicComponent :=
  dynamic "reportPostModal" "./report/ReportPostModal".
Definition ReportCommentModal : DynamicComponent :=
  dynamic "reportCommentModal" "./report/ReportCommentModal".
Definition SquadNotificationsModal : DynamicComponent :=
  dynamic "squadNotificationsModal" "./squads/SquadNotificationsModal".

(** An object literal is the list of its property definitions, in the
    order they are written. *)
Definition ObjectLiteral (V : Type) : Type := list (LazyModal * V).

Definition modals : ObjectLiteral DynamicComponent :=
  [ (SquadMember, SquadMemberModal);
    (UpvotedPopup, UpvotedPopupModal);
    (SquadTour, SquadTourModal);
    (ReadingHistory, ReadingHistoryModal);
    (SquadPromotion, SquadPromotionModal);
    (CreateSharedPost, CreateSharedPostModal);
    (ReportPost, ReportPostModal);
    (ReportComment, ReportCommentModal);
    (SquadNotifications, SquadNotificationsModal) ].

Definition keys {V} (o : ObjectLiteral V) : list LazyModal := o.*1.

(** [o[k]]: were a key written twice, the later definition would win. *)
Definition property {V} (o : ObjectLiteral V) (k : LazyModal) : option V :=
  snd <$> last (filter (λ e, e.1 = k) o).

(** The spec's [resolve(id)] is the property read [modals[id]]. *)
Definition resolve (id : LazyModal) : option DynamicComponent :=
  property modals id.

(** ** The derived prop types *)

(** [{ type: K; props?: P }] or [{ type: K; props: P }] *)
Record RequestType : Type := mkRequestType {
  type : LazyModal;
  props_optional : bool;
  props : ObjectType
}.

(** ** Payloads and validation results *)

(** A payload is a JavaScript object: a finite map from property names
    to values. *)
Inductive JsValue : Type :=
  | JsString (s : string)
  | JsNumber (n : Z)
  | JsBoolean (b : bool)
  | JsFunction (name : string).

Inductive ViolationKind : Type :=
  | MissingPayload
  | MissingField (field : string)
  | UnknownField (field : string).

Inductive ContractViolation : Type :=
  | Violation (kind : ViolationKind) (id : LazyModal).

Record ModalRequest : Type := mkModalRequest {
  request_id : LazyModal;
  request_payload : option (gmap string JsValue)
}.

Section Renderers.

(** The props type of the default export of each modal module, by import
    path.  The modal modules are not among the sources, so the
    derivation is carried out for an arbitrary table. *)
Variable renderer_props : string → ObjectType.

(** [dynamic] returns a [ComponentType<P>] for the [P] of the imported
    component. *)
Definition typeof_dynamic (c : DynamicComponent) : ComponentTy :=
  ComponentType (renderer_props (modulePath c)).

(** [ModalsType = typeof modals], and [ModalsType[K]]. *)
Definition ModalsType : ObjectLiteral ComponentTy :=
  prod_map id typeof_dynamic <$> modals.

Definition ModalsType_at (K : LazyModal) : option ComponentTy :=
  property ModalsType K.

(** [GetComponentProps<ModalsType[K]>]: the input shape the renderer of
    [K] declares. *)
Definition ComponentProps (K : LazyModal) : option ObjectType :=
  ModalsType_at K ≫= GetComponentProps.

(** [Omit<GetComponentProps<ModalsType[K]>, 'isOpen' | 'onRequestClose'>] *)
Definition LazyModalComponentType (K : LazyModal) : option ObjectType :=
  P ← ComponentProps K; Some (Omit P ["isOpen"; "onRequestClose"]).

(** The member of the mapped type at key [K]: [props] is optional when
    [NonOptional<LazyModalComponentType<K>> extends Record<string, never>]. *)
Definition LazyModalType_member (K : LazyModal) : option RequestType :=
  P ← LazyModalComponentType K;
  Some (if extends_Record_string_never (NonOptional P)
        then mkRequestType K true P
        else mkRequestType K false P).

(** [LazyModalType<T>]: the mapped type over [keyof ModalsType], indexed
    by [T]. *)
Definition LazyModalType (T : LazyModal) : option RequestType :=
  if decide (T ∈ keys ModalsType) then LazyModalType_member T else None.

(** The spec's names for what the types say: the fields a caller
    supplies, and whether [props] has to be there.  Both types exist for
    every member of [LazyModal] ([contractOf_resolve],
    [LazyModalType_contractOf]), so the defaults are never taken. *)
Definition contractOf (id : LazyModal) : ObjectType :=
  default [] (LazyModalComponentType id).

Definition payloadRequired (id : LazyModal) : bool :=
  from_option (λ t, negb (props_optional t)) false (LazyModalType id).

(** ** The request validator *)

(** The first required field of the contract that the payload lacks. *)
Definition missing_field (C : ObjectType) (payload : gmap string JsValue)
  : option string :=
  fname <$> head (filter (λ f, foptional f = false ∧ payload !! fname f = None) C).

(** The first property of the payload that the contract does not name. *)
Definition unknown_field (C : ObjectType) (payload : gmap string JsValue)
  : option string :=
  head (filter (λ k, k ∉ keyof C) (elements (dom payload))).

(** Modelled from the spec: [buildRequest], the run-time validator of
    section 4.4.  The sources hold the request type [LazyModalType]
    only, which the TypeScript compiler enforces at each call site; no
    function checks a request at run time.  The four steps are taken
    in the order the spec gives them, over [payloadRequired] and
    [contractOf] as derived above. *)
Definition buildRequest (id : LazyModal) (payload : option (gmap string JsValue))
  : ModalRequest + ContractViolation :=
  match payload with
  | None =>
      if payloadRequired id
      then inr (Violation MissingPayload id)
      else inl (mkModalRequest id None)
  | Some p =>
      match missing_field (contractOf id) p with
      | Some f => inr (Violation (MissingField f) id)
      | None =>
          match unknown_field (contractOf id) p with
          | Some f => inr (Violation (UnknownField f) id)
          | None => inl (mkModalRequest id (Some p))
          end
      end
  end.

End Renderers.

(** ** The check of a request literal *)

Section RequestLiterals.

Variable renderer_props : string → ObjectType.

(** What the repository has to check a request is the compiler's test
    of a request written as an object literal, [{ type: K }] or
    [{ type: K, props: { ... } }], against [LazyModalType<K>].  The
    props literal is the list of its properties in the order written;
    their values are taken to have the types the component declares.

    An object literal is first tested for excess properties, in the
    order written; the test is not made against an empty object type,
    which admits every object. *)
Definition excess_property (T : ObjectType) (literal : list (string * JsValue))
  : option string :=
  match T with
  | [] => None
  | _ :: _ => head (filter (λ k, k ∉ keyof T) literal.*1)
  end.

(** Then the required properties of the type are looked for in the
    literal, in the order the type declares them. *)
Definition missing_property (T : ObjectType) (literal : list (string * JsValue))
  : option string :=
  fname <$> head (filter (λ f, foptional f = false ∧ fname f ∉ literal.*1) T).

(** The outcome, in the spec's terms: [MissingPayload] when [props] is
    left out and the type has [props:], [UnknownField] for an excess
    property, [MissingField] for a missing one.  [None]: the literal
    names a property twice, which the compiler refuses in itself. *)
Definition checkRequestLiteral (id : LazyModal)
    (literal : option (list (string * JsValue)))
  : option (ModalRequest + ContractViolation) :=
  match literal with
  | None =>
      Some (if payloadRequired renderer_props id
            then inr (Violation MissingPayload id)
            else inl (mkModalRequest id None))
  | Some l =>
      if decide (NoDup l.*1) then
        Some match excess_property (contractOf renderer_props id) l with
             | Some k => inr (Violation (UnknownField k) id)
             | None =>
                 match missing_property (contractOf renderer_props id) l with
                 | Some k => inr (Violation (MissingField k) id)
                 | None => inl (mkModalRequest id (Some (list_to_map l)))
                 end
             end
      else None
  end.

End RequestLiterals.

(** ** A stub table of renderers *)

(** Props types to run the derivation on.  [ReportPostModal] has the one
    required field of the spec's end-to-end scenario, [UpvotedPopupModal]
    the shape [{title; subtitle?}] of its validator example,
    [ReadingHistoryModal] nothing but an optional field beside the
    lifecycle ones, every other modal the lifecycle fields alone.
    [isOpen] is required and [onRequestClose] optional, as in
    react-modal's props. *)
Definition stub_props (path : string) : ObjectType :=
  if decide (path = "./report/ReportPostModal") then
    [req "isOpen"; opt "onRequestClose"; req "postId"]
  else if decide (path = "./UpvotedPopupModal") then
    [req "title"; req "isOpen"; opt "subtitle"; opt "onRequestClose"]
  else if decide (path = "./post/ReadingHistoryModal") then
    [req "isOpen"; opt "onRequestClose"; opt "ariaHideApp"]
  else
    [req "isOpen"; opt "onRequestClose"].

(** The stub table after every component has gained an optional prop. *)
Definition stub_props_origin (path : string) : ObjectType :=
  app (stub_props path) [opt "origin"].

Definition payload_of (l : list (string * JsValue)) : gmap string JsValue :=
  list_to_map l.

(** ** The union of all props types *)

(** [Partial<T>] makes every property optional. *)
Definition Partial (T : ObjectType) : ObjectType :=
  (λ f, mkField (fname f) true) <$> T.

Section PropTypes.

Variable renderer_props : string → ObjectType.

(** [{ [K in keyof ModalsType]: GetComponentProps<ModalsType[K]> }[keyof ModalsType]]:
    a union type is the list of its members; a [never] member
    disappears from it. *)
Definition ComponentPropsUnion : list ObjectType :=
  omap (ComponentProps renderer_props) (keys (ModalsType renderer_props)).

(** [LazyPropTypes]: [Partial] is a homomorphic mapped type, so it is
    applied to each member of the union. *)
Definition LazyPropTypes : list ObjectType :=
  Partial <$> ComponentPropsUnion.

End PropTypes.

(** * The squad member menu

    [getUpdateRoleOptions], [onUpdateMember] and the [options] of
    [SquadMemberMenu]. *)

Module SquadMemberMenu.

(** The enums [SourceMemberRole] and [SourcePermissions] are declared in
    [graphql/sources], which is not among the sources; they are given
    the members this file names. *)
Inductive SourceMemberRole : Type := Member | Moderator | Admin | Blocked.

Inductive SourcePermissions : Type := MemberRoleUpdate | MemberRemove.

#[global] Instance SourceMemberRole_eq_dec : EqDecision SourceMemberRole.
Proof. solve_decision. Defined.

(** The fields of [Squad], [SourceMember] and the logged-in user that
    the menu reads. *)
Record User : Type := mkUser { user_id : string; user_name : string }.

Record SourceMember : Type := mkSourceMember {
  role : SourceMemberRole;
  user : User
}.

Record Squad : Type := mkSquad { squad_id : string; squad_name : string }.

Inductive MenuItemTitle : Type :=
  | PromoteToAdmin
  | PromoteToModerator
  | DemoteToModerator
  | DemoteToMember
  | BlockMember.

#[global] Instance MenuItemTitle_eq_dec : EqDecision MenuItemTitle.
Proof. solve_decision. Defined.

(** The string value of each enum member. *)
Definition title_value (t : MenuItemTitle) : string :=
  match t with
  | PromoteToAdmin => "Make admin"
  | PromoteToModerator => "Promote to moderator"
  | DemoteToModerator => "Demote to moderator"
  | DemoteToMember => "Demote to member"
  | BlockMember => "Block member"
  end.

Definition promptDescription (t : MenuItemTitle) (memberName squadName : string)
  : string :=
  match t with
  | PromoteToAdmin =>
      memberName ++ " will get the same permissions as you have. Making someone an admin will not replace you as the admin of " ++ squadName ++ ". You can reverse this decision later."
  | PromoteToModerator =>
      memberName ++ " will now get moderator permissions and be able to remove posts and members from your Squad. You can reverse this decision later."
  | DemoteToModerator =>
      memberName ++ " will no longer have admin permissions. You can always reverse this decision later."
  | DemoteToMember =>
      memberName ++ " will lose the moderator permissions and become a regular member."
  | BlockMember =>
      memberName ++ " will be blocked and will no longer have access to " ++ squadName ++ ". They will not be able to rejoin unless you unblock them."
  end.

(** A [Partial<Record<...>>]: a title without an entry reads as
    [undefined]. *)
Definition toastDescription (t : MenuItemTitle) : option string :=
  match t with
  | BlockMember => Some "Member has been blocked"
  | _ => None
  end.

(** The icons, all of [IconSize.Small]. *)
Inductive Icon : Type := StarIcon | UserIcon | BlockIcon | SquadIcon | FlagIcon.

Record AnchorProps : Type := mkAnchorProps {
  href : string;
  anchor_className : string;
  rel : string;
  target : string
}.

(** A menu item carries an action or the props of a link. *)
Record MenuItemProps (A : Type) : Type := mkMenuItem {
  label : string;
  icon : Icon;
  action : option A;
  anchorProps : option AnchorProps
}.

Arguments mkMenuItem {A}.
Arguments label {A}.
Arguments icon {A}.
Arguments action {A}.
Arguments anchorProps {A}.

Definition getUpdateRoleOptions {A : Type} (member : SourceMember)
    (getUpdateRoleFn : SourceMemberRole → MenuItemTitle → A)
  : list (MenuItemProps A) :=
  let promoteToAdmin :=
    mkMenuItem (title_value PromoteToAdmin) StarIcon
      (Some (getUpdateRoleFn Admin PromoteToAdmin)) None in
  let promoteToModerator :=
    mkMenuItem (title_value PromoteToModerator) UserIcon
      (Some (getUpdateRoleFn Moderator PromoteToModerator)) None in
  let demoteToModerator :=
    mkMenuItem (title_value DemoteToModerator) BlockIcon
      (Some (getUpdateRoleFn Moderator DemoteToModerator)) None in
  let demoteToMember :=
    mkMenuItem (title_value DemoteToMember) SquadIcon
      (Some (getUpdateRoleFn Member DemoteToMember)) None in
  if decide (role member = Admin) then [demoteToModerator; demoteToMember]
  else if decide (role member = Moderator) then [promoteToAdmin; demoteToMember]
  else [promoteToAdmin; promoteToModerator].

(** *** [onUpdateMember] *)

(** What [showPrompt] is called with: the title, the description, the
    title and class of the OK button, the user shown as content and the
    class of the buttons.  The prompt size ([ModalSize.Small], an enum
    declared elsewhere) and the class names of the content are left
    out. *)
Record PromptOptions : Type := mkPromptOptions {
  prompt_title : string;
  prompt_description : string;
  okButton_title : string;
  okButton_className : string;
  content_user : User;
  buttons_className : string
}.

(** The calls [onUpdateMember] makes, in the order it makes them. *)
Inductive Call : Type :=
  | showPrompt (o : PromptOptions)
  | onUpdateRole (sourceId memberId : string) (r : SourceMemberRole)
  | displayToast (message : string).

Definition is_onUpdateRole (c : Call) : bool :=
  match c with
  | onUpdateRole _ _ _ => true
  | _ => false
  end.

Inductive Completion : Type := Resolved | Rejected.

(** [onUpdateMember(role, title)] of the component for [squad] and
    [member].  The two awaited promises are inputs: what [showPrompt]
    resolves to and whether [onUpdateRole] resolves, [None] being a
    rejection, which the function does not catch.  The result is the
    list of calls made and how the returned promise settles. *)
Definition onUpdateMember (squad : Squad) (member : SourceMember)
    (r : SourceMemberRole) (title : MenuItemTitle)
    (hasConfirmed : option bool) (updated : option unit)
  : list Call * Completion :=
  let prompt :=
    showPrompt
      (mkPromptOptions (title_value title ++ "?")
         (promptDescription title (user_name (user member)) (squad_name squad))
         (title_value title) "btn-primary-cabbage" (user member) "mt-6") in
  match hasConfirmed with
  | None => ([prompt], Rejected)
  | Some false => ([prompt], Resolved)
  | Some true =>
      let update := onUpdateRole (squad_id squad) (user_id (user member)) r in
      match updated with
      | None => ([prompt; update], Rejected)
      | Some _ =>
          match toastDescription title with
          | Some message =>
              if decide (message = "") then ([prompt; update], Resolved)
              else ([prompt; update; displayToast message], Resolved)
          | None => ([prompt; update], Resolved)
          end
      end
  end.

(** *** The menu *)

(** The action of a menu item: the closure
    [() => onUpdateMember(role, title)]. *)
Inductive Action : Type :=
  | callOnUpdateMember (r : SourceMemberRole) (title : MenuItemTitle).

Definition run (squad : Squad) (member : SourceMember) (a : Action)
    (hasConfirmed : option bool) (updated : option unit)
  : list Call * Completion :=
  match a with
  | callOnUpdateMember r title =>
      onUpdateMember squad member r title hasConfirmed updated
  end.

(** One render of the component: the [squad] and [member] props and the
    [user] of the context.  [Object.is] holds of two objects when they
    are one object, so the member comes with the address of its
    object; a missing member has none. *)
Record Render : Type := mkRender {
  render_squad : Squad;
  render_member : option (nat * SourceMember);
  render_user : option User
}.

(** The identity of the member object of a render. *)
Definition member_address (r : Render) : option nat :=
  fst <$> render_member r.

(** [useMemo(calculateValue, dependencies)] on the cell of the hook, which
    holds the dependencies and the value of the render that calculated
    last: the value is calculated on the first render and when a
    dependency is not the same, by [Object.is], as at the render
    before. *)
Definition useMemo {D V : Type} `{EqDecision D} (calculateValue : V)
    (dependencies : list D) (cell : option (list D * V))
  : V * option (list D * V) :=
  match cell with
  | Some (previous, value) =>
      if decide (previous = dependencies) then (value, cell)
      else (calculateValue, Some (dependencies, calculateValue))
  | None => (calculateValue, Some (dependencies, calculateValue))
  end.

Section Menu.

(** [verifyPermission] of [graphql/squads] and the constant
    [reportSquadMember] of [lib/constants] are not among the sources. *)
Variable verifyPermission : Squad → SourcePermissions → bool.
Variable reportSquadMember : string.

(** The function passed to [useMemo], which calculates the menu from the
    [squad], [member] and [user] of the render it is called in; [member]
    and [user] may be missing.  The actions it builds are closures of
    that render. *)
Definition computeOptions (squad : Squad) (member : option SourceMember)
    (user : option User) : list (MenuItemProps Action) :=
  match member, user with
  | Some member, Some user =>
      let getUpdateRoleFn := callOnUpdateMember in
      let canUpdateRole := verifyPermission squad MemberRoleUpdate in
      let menu :=
        if canUpdateRole then getUpdateRoleOptions member getUpdateRoleFn
        else [] in
      let menu :=
        app menu
        [ mkMenuItem "Report member" FlagIcon None
            (Some (mkAnchorProps
                     (reportSquadMember ++ "#user_id=" ++ user_id user ++
                      "&reportee_id=" ++ user_id (SquadMemberMenu.user member) ++
                      "&squad_id=" ++ squad_id squad)
                     "flex items-center w-full" "noopener noreferrer" "_blank")) ] in
      let canRemoveMember :=
        canUpdateRole ||
        (verifyPermission squad MemberRemove &&
         bool_decide (role member = Member)) in
      if canRemoveMember
      then app menu
           [ mkMenuItem (title_value BlockMember) BlockIcon
               (Some (getUpdateRoleFn Blocked BlockMember)) None ]
      else menu
  | _, _ => []
  end.

(** [options = useMemo(..., [member])]: the menu is calculated at the
    first render and at a render whose [member] is another object than
    at the render before; every other render returns the stored menu. *)
Definition render_options (r : Render)
    (cell : option (list (option nat) * list (MenuItemProps Action)))
  : list (MenuItemProps Action) *
    option (list (option nat) * list (MenuItemProps Action)) :=
  useMemo
    (computeOptions (render_squad r) (snd <$> render_member r) (render_user r))
    [member_address r] cell.

(** The value of [options] at the last of the renders of a component,
    oldest first, from the cell it has then; [None] before the first
    render. *)
Fixpoint options_from
    (cell : option (list (option nat) * list (MenuItemProps Action)))
    (renders : list Render) : option (list (MenuItemProps Action)) :=
  match renders with
  | [] => None
  | r :: later =>
      match later with
      | [] => Some (render_options r cell).1
      | _ :: _ => options_from (render_options r cell).2 later
      end
  end.

Definition options (renders : list Render)
  : option (list (MenuItemProps Action)) :=
  options_from None renders.

End Menu.

End SquadMemberMenu.

(** * The provider button *)

Module ProviderButton.

(** The props of [ProviderButton]: the four it takes apart, and the rest,
    which it hands to [Button]. *)
Record ProviderButtonProps : Type := mkProps {
  label : option string;
  provider : string;
  style : option (gmap string string);
  className : option string;
  props : gmap string JsValue
}.

(** What is rendered: [Button] with its props, the arguments of
    [classNames], its style and its text. *)
Record ButtonElement : Type := mkButton {
  button_props : gmap string JsValue;
  classNames_args : list string;
  button_style : gmap string string;
  children : string
}.

(** Whether an optional string is truthy: present and not empty. *)
Definition truthy (s : option string) : bool :=
  match s with
  | Some s => negb (bool_decide (s = ""))
  | None => false
  end.

(** The object literal [{ justifyContent, color, fontWeight, ...style }]:
    the spread comes last, so its properties replace the three before
    it. *)
Definition ProviderButton (p : ProviderButtonProps) : ButtonElement :=
  let className := default "border-0" (className p) in
  mkButton (props p)
    ["btn-secondary"; className]
    (default ∅ (style p) ∪
     <["justifyContent" := if truthy (label p) then "flex-start" else "center"]>
       (<["color" := "#FFFFFF"]> (<["fontWeight" := "normal"]> ∅)))
    (if truthy (label p)
     then default "" (label p) ++ " " ++ provider p
     else "").

End ProviderButton.

(** * Comment links *)

Module Comments.

Definition getCommentHash (id : string) : string := "#c-" ++ id.

End Comments.

(** * Properties *)

(** ** Object types *)

Lemma elem_of_Omit T K f : f ∈ Omit T K ↔ f ∈ T ∧ fname f ∉ K.
Proof. unfold Omit. rewrite list_elem_of_filter. tauto. Qed.

Lemma elem_of_Pick T K f : f ∈ Pick T K ↔ f ∈ T ∧ fname f ∈ K.
Proof. unfold Pick. rewrite list_elem_of_filter. tauto. Qed.

Lemma Omit_sublist T K : sublist (Omit T K) T.
Proof. apply sublist_filter. Qed.

Lemma elem_of_RequiredKeys T k :
  k ∈ RequiredKeys T ↔ ∃ f, f ∈ T ∧ fname f = k ∧ foptional f = false.
Proof.
  unfold RequiredKeys. rewrite list_elem_of_fmap. split.
  - intros (f & -> & Hf). apply list_elem_of_filter in Hf as [Hreq Hin].
    exists f. repeat split; [done|]. simpl in Hreq.
    by destruct (foptional f).
  - intros (f & Hin & <- & Hreq). exists f. split; [done|].
    apply list_elem_of_filter. split; [|done]. simpl. by rewrite Hreq.
Qed.

(** No field survives [NonOptional] exactly when every field is optional. *)
Lemma NonOptional_nil T :
  NonOptional T = [] ↔ ∀ f, f ∈ T → foptional f = true.
Proof.
  unfold NonOptional. split.
  - intros Hnil f Hin. destruct (foptional f) eqn:Hopt; [done|].
    assert (f ∈ Pick T (RequiredKeys T)) as Hf.
    { apply elem_of_Pick. split; [done|]. apply elem_of_RequiredKeys. eauto. }
    rewrite Hnil in Hf. by apply elem_of_nil in Hf.
  - intros Hall. apply elem_of_nil_inv. intros f Hf.
    apply elem_of_Pick in Hf as [_ Hk].
    apply elem_of_RequiredKeys in Hk as (g & Hg & _ & Hreq).
    specialize (Hall g Hg). congruence.
Qed.

Lemma extends_Record_string_never_nil T :
  extends_Record_string_never T = true ↔ T = [].
Proof. by destruct T. Qed.

Lemma keyof_Pick_perm T K :
  NoDup (keyof T) → NoDup K → K ⊆ keyof T → keyof (Pick T K) ≡ₚ K.
Proof.
  intros HT HK Hsub. apply NoDup_Permutation; [|done|].
  - eapply sublist_NoDup; [exact HT|].
    unfold keyof, Pick. apply fmap_sublist, sublist_filter.
  - intros k. unfold keyof at 1. rewrite list_elem_of_fmap. split.
    + intros (f & -> & Hf). by apply elem_of_Pick in Hf as [_ ?].
    + intros Hk. pose proof (Hsub k Hk) as Hin.
      apply list_elem_of_fmap in Hin as (f & -> & Hf).
      exists f. split; [done|]. by apply elem_of_Pick.
Qed.

(** [Omit] drops as many fields as it is given names, when the names are
    all declared, each once. *)
Lemma length_Omit T K :
  NoDup (keyof T) → NoDup K → K ⊆ keyof T →
  length T = length K + length (Omit T K).
Proof.
  intros HT HK Hsub.
  rewrite <- (Permutation_length (keyof_Pick_perm T K HT HK Hsub)).
  unfold keyof. rewrite length_fmap.
  rewrite <- (Permutation_length (filter_app_complement (λ f, fname f ∈ K) T)).
  rewrite length_app. done.
Qed.

(** ** The registry *)

Lemma resolve_total id : ∃ c, resolve id = Some c.
Proof. destruct id; eexists; reflexivity. Qed.

Lemma keys_modals_all id : id ∈ keys modals.
Proof. destruct id; cbn; repeat constructor. Qed.

Lemma keys_ModalsType rp : keys (ModalsType rp) = keys modals.
Proof. reflexivity. Qed.

Lemma ModalsType_at_resolve rp id :
  ModalsType_at rp id = typeof_dynamic rp <$> resolve id.
Proof. destruct id; reflexivity. Qed.

Lemma ComponentProps_resolve rp id c :
  resolve id = Some c → ComponentProps rp id = Some (rp (modulePath c)).
Proof.
  intros Hc. unfold ComponentProps. by rewrite ModalsType_at_resolve, Hc.
Qed.

Lemma contractOf_resolve rp id c :
  resolve id = Some c →
  LazyModalComponentType rp id = Some (contractOf rp id) ∧
  contractOf rp id = Omit (rp (modulePath c)) ["isOpen"; "onRequestClose"].
Proof.
  intros Hc. unfold contractOf, LazyModalComponentType.
  by rewrite (ComponentProps_resolve rp id c Hc).
Qed.

Lemma LazyModalType_contractOf rp id :
  LazyModalType rp id =
  Some (mkRequestType id
          (extends_Record_string_never (NonOptional (contractOf rp id)))
          (contractOf rp id)).
Proof.
  destruct (resolve_total id) as [c Hc].
  destruct (contractOf_resolve rp id c Hc) as [HP _].
  unfold LazyModalType. rewrite keys_ModalsType.
  destruct (decide (id ∈ keys modals)) as [_|Hn].
  - unfold LazyModalType_member. rewrite HP. simpl.
    by destruct (extends_Record_string_never _).
  - exfalso. apply Hn. apply keys_modals_all.
Qed.

Lemma payloadRequired_false rp id :
  payloadRequired rp id = false ↔
  ∀ f, f ∈ contractOf rp id → foptional f = true.
Proof.
  unfold payloadRequired. rewrite LazyModalType_contractOf. simpl.
  rewrite negb_false_iff, extends_Record_string_never_nil.
  apply NonOptional_nil.
Qed.

(** ** The validator's two searches *)

Lemma missing_field_Some C (p : gmap string JsValue) k :
  missing_field C p = Some k →
  ∃ f, f ∈ C ∧ fname f = k ∧ foptional f = false ∧ p !! fname f = None.
Proof.
  unfold missing_field. intros Hk.
  apply fmap_Some in Hk as (f & Hhead & ->).
  apply head_Some_elem_of, list_elem_of_filter in Hhead as [[Hreq Hnone] Hin].
  by exists f.
Qed.

Lemma missing_field_None C (p : gmap string JsValue) :
  missing_field C p = None ↔
  ∀ f, f ∈ C → foptional f = false → is_Some (p !! fname f).
Proof.
  unfold missing_field. rewrite fmap_None, head_None. split.
  - intros Hnil f Hin Hreq. apply not_eq_None_Some. intros Hnone.
    by eapply (filter_nil_not_elem_of _ _ f Hnil).
  - intros Hall. apply elem_of_nil_inv. intros f Hf.
    apply list_elem_of_filter in Hf as [[Hreq Hnone] Hin].
    destruct (Hall f Hin Hreq) as [v Hv]. congruence.
Qed.

Lemma unknown_field_Some C (p : gmap string JsValue) k :
  unknown_field C p = Some k → is_Some (p !! k) ∧ k ∉ keyof C.
Proof.
  unfold unknown_field. intros Hk.
  apply head_Some_elem_of, list_elem_of_filter in Hk as [Hnot Hin].
  split; [|done]. by apply elem_of_dom, elem_of_elements.
Qed.

Lemma unknown_field_None C (p : gmap string JsValue) :
  unknown_field C p = None ↔ ∀ k, is_Some (p !! k) → k ∈ keyof C.
Proof.
  unfold unknown_field. rewrite head_None. split.
  - intros Hnil k Hk. destruct (decide (k ∈ keyof C)) as [|Hnot]; [done|].
    exfalso. eapply (filter_nil_not_elem_of _ _ k Hnil); [done|].
    by apply elem_of_elements, elem_of_dom.
  - intros Hall. apply elem_of_nil_inv. intros k Hk.
    apply list_elem_of_filter in Hk as [Hnot Hin].
    apply Hnot, Hall. by apply elem_of_dom, elem_of_elements.
Qed.

Lemma modals_entry_unique (id : LazyModal) :
  ∃ c, resolve id = Some c ∧ filter (λ e, e.1 = id) modals = [(id, c)].
Proof. destruct id; eexists; split; reflexivity. Qed.

(** ** The registry is total and has nine keys *)

(** C3: every variant identifier resolves to a registry entry, and the
    registry holds exactly one entry under that identifier. *)
Theorem resolve_defined_unique (id : LazyModal) :
  ∃ c, resolve id = Some c ∧ filter (λ e, e.1 = id) modals = [(id, c)].
Proof. destruct id; eexists; split; reflexivity. Qed.

(** C10: the identifiers are the nine members SquadMember, UpvotedPopup,
    SquadTour, ReadingHistory, SquadPromotion, CreateSharedPost,
    ReportPost, ReportComment and SquadNotifications; the keys of the
    registry are these nine, each once and no other, and each is paired
    with a deferred loader. *)
Theorem modals_keys_exactly_nine :
  keys modals =
    [SquadMember; UpvotedPopup; SquadTour; ReadingHistory; SquadPromotion;
     CreateSharedPost; ReportPost; ReportComment; SquadNotifications] ∧
  NoDup (keys modals) ∧
  length modals = 9 ∧
  (∀ id : LazyModal, id ∈ keys modals) ∧
  (∀ id : LazyModal, ∃ chunk path,
      resolve id = Some (dynamic chunk path) ∧ (id, dynamic chunk path) ∈ modals).
Proof.
  split; [reflexivity|]. split.
  { refine (bool_decide_unpack _ _). vm_compute. exact I. }
  split; [reflexivity|]. split; [apply keys_modals_all|].
  intros id. destruct id; do 2 eexists; (split; [reflexivity|]);
    cbn; repeat constructor.
Qed.

(** ** The payload contract *)

Section Contract.

Variable renderer_props : string → ObjectType.

Implicit Types (id : LazyModal) (c : DynamicComponent) (f : Field).
Implicit Types (p : gmap string JsValue).

(** C2: the contract of a variant is the input shape its renderer
    declares, without the two fields the host injects, [isOpen] (the
    visible flag) and [onRequestClose] (the close callback): a field is in
    the contract exactly when it is in the shape and is neither of the
    two, the fields keep their order and their marking, and the shape
    has two fields more than the contract. *)
Theorem contractOf_removes_lifecycle_fields id c :
  resolve id = Some c →
  NoDup (keyof (renderer_props (modulePath c))) →
  "isOpen" ∈ keyof (renderer_props (modulePath c)) →
  "onRequestClose" ∈ keyof (renderer_props (modulePath c)) →
  ComponentProps renderer_props id = Some (renderer_props (modulePath c)) ∧
  LazyModalComponentType renderer_props id = Some (contractOf renderer_props id) ∧
  (∀ f, f ∈ contractOf renderer_props id ↔
        f ∈ renderer_props (modulePath c) ∧
        fname f ≠ "isOpen" ∧ fname f ≠ "onRequestClose") ∧
  sublist (contractOf renderer_props id) (renderer_props (modulePath c)) ∧
  length (renderer_props (modulePath c)) =
    2 + length (contractOf renderer_props id).
Proof.
  intros Hc Hnodup Hopen Hclose.
  destruct (contractOf_resolve renderer_props id c Hc) as [HP Heq].
  split; [by apply ComponentProps_resolve|]. split; [done|].
  rewrite Heq. split; [|split].
  - intros f. rewrite elem_of_Omit, !not_elem_of_cons. split.
    + intros (Hin & H1 & H2 & _). done.
    + intros (Hin & H1 & H2). repeat split; [done..|]. apply not_elem_of_nil.
  - apply Omit_sublist.
  - apply (length_Omit _ ["isOpen"; "onRequestClose"]); [done| |].
    + refine (bool_decide_unpack _ _). vm_compute. exact I.
    + intros k Hk. apply elem_of_cons in Hk as [->|Hk]; [done|].
      apply list_elem_of_singleton in Hk as ->. done.
Qed.

(** C1, as amended: [props] may be left out exactly when no field of the
    contract is required, that is when every field left after the
    subtraction is optional; so it may be left out in particular when the
    contract is empty. *)
Theorem payloadRequired_iff_required_field id :
  (payloadRequired renderer_props id = false ↔
   ∀ f, f ∈ contractOf renderer_props id → foptional f = true) ∧
  (contractOf renderer_props id = [] → payloadRequired renderer_props id = false).
Proof.
  split; [apply payloadRequired_false|].
  intros Hnil. apply payloadRequired_false. intros f Hf.
  rewrite Hnil in Hf. by apply elem_of_nil in Hf.
Qed.

(** C4: a request without payload is accepted exactly when the payload
    is not required; when it is required the request fails with
    [MissingPayload]. *)
Theorem buildRequest_without_payload id :
  ((∃ r, buildRequest renderer_props id None = inl r) ↔
   payloadRequired renderer_props id = false) ∧
  (payloadRequired renderer_props id = false →
   buildRequest renderer_props id None = inl (mkModalRequest id None)) ∧
  (payloadRequired renderer_props id = true →
   buildRequest renderer_props id None = inr (Violation MissingPayload id)).
Proof.
  unfold buildRequest.
  destruct (payloadRequired renderer_props id); repeat split;
    try done; try (intros [r Hr]; done); eauto.
Qed.

(** C5: with a payload present, a required field of the contract that
    the payload lacks makes the request fail with [MissingField] for such
    a field; the fields of the contract carry the marking of the
    renderer's declaration; and a payload with every required field and
    no unknown field is accepted. *)
Theorem buildRequest_required_fields id p :
  (∃ P, ComponentProps renderer_props id = Some P ∧
        ∀ f, f ∈ contractOf renderer_props id → f ∈ P) ∧
  ((∃ f, f ∈ contractOf renderer_props id ∧ foptional f = false ∧
         p !! fname f = None) →
   ∃ f, f ∈ contractOf renderer_props id ∧ foptional f = false ∧
        p !! fname f = None ∧
        buildRequest renderer_props id (Some p) =
          inr (Violation (MissingField (fname f)) id)) ∧
  ((∀ f, f ∈ contractOf renderer_props id → foptional f = false →
         is_Some (p !! fname f)) →
   (∀ k, is_Some (p !! k) → k ∈ keyof (contractOf renderer_props id)) →
   buildRequest renderer_props id (Some p) = inl (mkModalRequest id (Some p))).
Proof.
  split; [|split].
  - destruct (resolve_total id) as [c Hc].
    exists (renderer_props (modulePath c)).
    split; [by apply ComponentProps_resolve|].
    destruct (contractOf_resolve renderer_props id c Hc) as [_ ->].
    intros f Hf. by apply elem_of_Omit in Hf as [? _].
  - intros (f & Hin & Hreq & Hnone). unfold buildRequest.
    destruct (missing_field _ p) as [k|] eqn:Hk.
    + apply missing_field_Some in Hk as (g & ? & <- & ? & ?). by exists g.
    + pose proof (proj1 (missing_field_None _ _) Hk f Hin Hreq) as [v Hv].
      congruence.
  - intros Hreq Hknown. unfold buildRequest.
    apply missing_field_None in Hreq. apply unknown_field_None in Hknown.
    by rewrite Hreq, Hknown.
Qed.

End Contract.

(** ** Unknown fields in a request literal *)

Section LiteralCheck.

Variable renderer_props : string → ObjectType.


End LiteralCheck.

(** ** The derivation on the stub table *)

Example contractOf_stub :
  contractOf stub_props <$> keys modals =
    [ []; [req "title"; opt "subtitle"]; []; [opt "ariaHideApp"]; []; [];
      [req "postId"]; []; [] ].
Proof. reflexivity. Qed.

Example payloadRequired_stub :
  payloadRequired stub_props <$> keys modals =
    [false; true; false; false; false; false; true; false; false].
Proof. reflexivity. Qed.

Example buildRequest_title :
  buildRequest stub_props UpvotedPopup
    (Some (payload_of [("title", JsString "x")])) =
  inl (mkModalRequest UpvotedPopup (Some (payload_of [("title", JsString "x")]))).
Proof. vm_compute. reflexivity. Qed.

Example buildRequest_empty_payload :
  buildRequest stub_props UpvotedPopup (Some (payload_of [])) =
  inr (Violation (MissingField "title") UpvotedPopup).
Proof. vm_compute. reflexivity. Qed.

Example buildRequest_extra :
  buildRequest stub_props UpvotedPopup
    (Some (payload_of [("title", JsString "x"); ("extra", JsNumber 1)])) =
  inr (Violation (UnknownField "extra") UpvotedPopup).
Proof. vm_compute. reflexivity. Qed.

Example buildRequest_ReportPost :
  buildRequest stub_props ReportPost
    (Some (payload_of [("postId", JsString "p1")])) =
  inl (mkModalRequest ReportPost (Some (payload_of [("postId", JsString "p1")]))).
Proof. vm_compute. reflexivity. Qed.

(** The contract of [ReadingHistoryModal] in the stub table is not empty:
    it has the optional field [ariaHideApp].  No field of it is
    required, so [props] is optional all the same, and the payload is
    not required although the contract is not empty. *)
Lemma payloadRequired_optional_only_contract :
  ¬ (payloadRequired stub_props ReadingHistory = false ↔
     contractOf stub_props ReadingHistory = []).
Proof. intros [Hnil _]. specialize (Hnil eq_refl). discriminate Hnil. Qed.

Lemma contractOf_removes_lifecycle_fields_witness :
  (resolve UpvotedPopup = Some UpvotedPopupModal ∧
   NoDup (keyof (stub_props (modulePath UpvotedPopupModal))) ∧
   "isOpen" ∈ keyof (stub_props (modulePath UpvotedPopupModal)) ∧
   "onRequestClose" ∈ keyof (stub_props (modulePath UpvotedPopupModal))) ∧
  contractOf stub_props UpvotedPopup = [req "title"; opt "subtitle"] ∧
  length (stub_props (modulePath UpvotedPopupModal)) =
    2 + length (contractOf stub_props UpvotedPopup).
Proof.
  assert (resolve UpvotedPopup = Some UpvotedPopupModal) as Hc
    by reflexivity.
  assert (NoDup (keyof (stub_props (modulePath UpvotedPopupModal)))) as Hnodup
    by (refine (bool_decide_unpack _ _); vm_compute; exact I).
  assert ("isOpen" ∈ keyof (stub_props (modulePath UpvotedPopupModal))) as Hopen
    by (refine (bool_decide_unpack _ _); vm_compute; exact I).
  assert ("onRequestClose" ∈ keyof (stub_props (modulePath UpvotedPopupModal)))
    as Hclose by (refine (bool_decide_unpack _ _); vm_compute; exact I).
  split; [done|]. split; [reflexivity|].
  apply (contractOf_removes_lifecycle_fields stub_props UpvotedPopup
           UpvotedPopupModal Hc Hnodup Hopen Hclose).
Defined.

(** The three theorems below at variants of the stub table: a renderer
    with the lifecycle fields alone, one with a required field, and a
    payload that lacks it. *)
Lemma payloadRequired_iff_required_field_witness :
  contractOf stub_props SquadTour = [] ∧
  payloadRequired stub_props SquadTour = false.
Proof.
  assert (contractOf stub_props SquadTour = []) as Hnil by reflexivity.
  split; [exact Hnil|].
  exact (proj2 (payloadRequired_iff_required_field stub_props SquadTour) Hnil).
Defined.

Lemma buildRequest_without_payload_witness :
  (payloadRequired stub_props ReportPost = true ∧
   buildRequest stub_props ReportPost None =
     inr (Violation MissingPayload ReportPost)) ∧
  (payloadRequired stub_props SquadTour = false ∧
   buildRequest stub_props SquadTour None =
     inl (mkModalRequest SquadTour None)).
Proof.
  assert (payloadRequired stub_props ReportPost = true) as Hreq by reflexivity.
  assert (payloadRequired stub_props SquadTour = false) as Hopt by reflexivity.
  split; (split; [done|]).
  - exact (proj2 (proj2 (buildRequest_without_payload stub_props ReportPost)) Hreq).
  - exact (proj1 (proj2 (buildRequest_without_payload stub_props SquadTour)) Hopt).
Defined.

Lemma buildRequest_required_fields_witness :
  (∃ f, f ∈ contractOf stub_props UpvotedPopup ∧ foptional f = false ∧
        payload_of [("subtitle", JsString "y")] !! fname f = None) ∧
  ∃ f, f ∈ contractOf stub_props UpvotedPopup ∧ foptional f = false ∧
       payload_of [("subtitle", JsString "y")] !! fname f = None ∧
       buildRequest stub_props UpvotedPopup
         (Some (payload_of [("subtitle", JsString "y")])) =
       inr (Violation (MissingField (fname f)) UpvotedPopup).
Proof.
  assert (∃ f, f ∈ contractOf stub_props UpvotedPopup ∧ foptional f = false ∧
               payload_of [("subtitle", JsString "y")] !! fname f = None)
    as Hmissing.
  { exists (req "title"). split; [|split].
    - refine (bool_decide_unpack _ _). vm_compute. exact I.
    - reflexivity.
    - vm_compute. reflexivity. }
  split; [exact Hmissing|].
  exact (proj1 (proj2 (buildRequest_required_fields stub_props UpvotedPopup _))
           Hmissing).
Defined.

(** * Further properties of the derived types *)

Lemma filter_ext_elem {A} (P Q : A → Prop)
    `{!∀ x, Decision (P x)} `{!∀ x, Decision (Q x)} (l : list A) :
  (∀ x, x ∈ l → P x ↔ Q x) → filter P l = filter Q l.
Proof.
  induction l as [|x l IH]; intros Hext; [done|].
  rewrite !filter_cons.
  assert (filter P l = filter Q l) as ->.
  { apply IH. intros y Hy. apply Hext. by apply list_elem_of_further. }
  pose proof (Hext x (list_elem_of_here _ _)) as Hx.
  destruct (decide (P x)), (decide (Q x)); tauto || done.
Qed.

Lemma keyof_NoDup_inj (T : ObjectType) f g :
  NoDup (keyof T) → f ∈ T → g ∈ T → fname f = fname g → f = g.
Proof.
  unfold keyof. induction T as [|h T IH]; intros Hnd Hf Hg Hname.
  - by apply elem_of_nil in Hf.
  - rewrite fmap_cons in Hnd. apply NoDup_cons in Hnd as [Hh Hnd].
    apply elem_of_cons in Hf as [->|Hf]; apply elem_of_cons in Hg as [->|Hg].
    + done.
    + exfalso. apply Hh. rewrite Hname. by apply list_elem_of_fmap_2.
    + exfalso. apply Hh. rewrite <- Hname. by apply list_elem_of_fmap_2.
    + by apply IH.
Qed.

(** X1: for an object type whose keys are distinct, [NonOptional] keeps
    exactly the required properties, in the order they are declared. *)
Theorem NonOptional_required_fields (T : ObjectType) :
  NoDup (keyof T) →
  NonOptional T = filter (λ f, foptional f = false) T.
Proof.
  intros Hnd. unfold NonOptional, Pick. apply filter_ext_elem.
  intros f Hf. rewrite elem_of_RequiredKeys. split.
  - intros (g & Hg & Hname & Hreq).
    by rewrite <- (keyof_NoDup_inj T g f Hnd Hg Hf Hname).
  - intros Hreq. by exists f.
Qed.

(** X2: [NonOptional] changes nothing when applied a second time, and it
    keeps the required keys. *)
Theorem NonOptional_idempotent (T : ObjectType) :
  RequiredKeys (NonOptional T) = RequiredKeys T ∧
  NonOptional (NonOptional T) = NonOptional T.
Proof.
  assert (RequiredKeys (NonOptional T) = RequiredKeys T) as Hkeys.
  { unfold RequiredKeys at 1 2. f_equal.
    unfold NonOptional, Pick. rewrite list_filter_filter.
    apply filter_ext_elem. intros f Hf. split; [tauto|].
    intros Hreq. split; [done|]. apply elem_of_RequiredKeys.
    exists f. repeat split; [done|]. simpl in Hreq.
    by destruct (foptional f). }
  split; [done|].
  unfold NonOptional at 1. rewrite Hkeys.
  unfold NonOptional, Pick. rewrite list_filter_filter.
  apply filter_ext_elem. tauto.
Qed.

(** X3: leaving out keys and keeping the required properties can be done
    in either order. *)
Theorem NonOptional_Omit (T : ObjectType) (K : list string) :
  NonOptional (Omit T K) = Omit (NonOptional T) K.
Proof.
  unfold NonOptional, Pick.
  set (R1 := RequiredKeys (Omit T K)). set (R2 := RequiredKeys T).
  unfold Omit. rewrite !list_filter_filter. apply filter_ext_elem.
  intros f Hf. subst R1 R2. rewrite !elem_of_RequiredKeys. split.
  - intros [(g & Hg & Hname & Hreq) HK]. split; [done|].
    apply elem_of_Omit in Hg as [Hg _]. by exists g.
  - intros [HK (g & Hg & Hname & Hreq)]. split; [|done].
    exists g. split; [|done]. apply elem_of_Omit. split; [done|].
    by rewrite Hname.
Qed.

Section DerivedTypes.

Variable renderer_props : string → ObjectType.

Lemma payloadRequired_true_resolve (id : LazyModal) (c : DynamicComponent) :
  resolve id = Some c →
  payloadRequired renderer_props id = true ↔
  ∃ f, f ∈ renderer_props (modulePath c) ∧ foptional f = false ∧
       fname f ≠ "isOpen" ∧ fname f ≠ "onRequestClose".
Proof.
  intros Hc.
  destruct (contractOf_resolve renderer_props id c Hc) as [_ Heq].
  pose proof (payloadRequired_false renderer_props id) as Hfalse.
  rewrite Heq in Hfalse. split.
  - intros Htrue.
    destruct (decide (Forall (λ f, foptional f = true)
                        (Omit (renderer_props (modulePath c))
                           ["isOpen"; "onRequestClose"]))) as [Hall|Hex].
    + rewrite Forall_forall in Hall. apply Hfalse in Hall. congruence.
    + apply not_Forall_Exists in Hex; [|apply _].
      apply Exists_exists in Hex as (f & Hf & Hreq).
      apply elem_of_Omit in Hf as [Hin HK].
      rewrite !not_elem_of_cons in HK. destruct HK as (Hopen & Hclose & _).
      exists f. split; [exact Hin|]. split; [|by split].
      simpl in Hreq. by destruct (foptional f).
  - intros (f & Hin & Hreq & Hopen & Hclose).
    destruct (payloadRequired renderer_props id) eqn:Hp; [done|].
    exfalso. assert (foptional f = true); [|congruence].
    apply Hfalse; [done|]. apply elem_of_Omit. split; [done|].
    rewrite !not_elem_of_cons. repeat split; [done..|]. apply not_elem_of_nil.
Qed.

(** X4: [props] is mandatory in the request for a modal exactly when its
    component declares a required prop other than [isOpen] and
    [onRequestClose]. *)
Theorem payloadRequired_iff_renderer_requires (id : LazyModal) :
  ∃ c, resolve id = Some c ∧
    (payloadRequired renderer_props id = true ↔
     ∃ f, f ∈ renderer_props (modulePath c) ∧ foptional f = false ∧
          fname f ≠ "isOpen" ∧ fname f ≠ "onRequestClose").
Proof.
  destruct (resolve_total id) as [c Hc]. exists c. split; [done|].
  by apply payloadRequired_true_resolve.
Qed.

(** X5: the request type of every modal exists, is tagged with the
    modal it belongs to and carries the contract as its [props]; so the
    request types of two different modals are never the same. *)
Theorem LazyModalType_tagged (T1 T2 : LazyModal) :
  (∃ t, LazyModalType renderer_props T1 = Some t ∧ type t = T1 ∧
        LazyModalComponentType renderer_props T1 = Some (props t)) ∧
  (LazyModalType renderer_props T1 = LazyModalType renderer_props T2 ↔ T1 = T2).
Proof.
  split.
  - eexists. split; [apply LazyModalType_contractOf|]. split; [done|].
    destruct (resolve_total T1) as [c Hc].
    by destruct (contractOf_resolve renderer_props T1 c Hc) as [? _].
  - split; [|by intros ->].
    rewrite !LazyModalType_contractOf. by intros [= ? _ _].
Qed.

Lemma ComponentPropsUnion_modals :
  ComponentPropsUnion renderer_props =
  (λ e, renderer_props (modulePath e.2)) <$> modals.
Proof. reflexivity. Qed.

Lemma elem_of_LazyPropTypes (M : ObjectType) :
  M ∈ LazyPropTypes renderer_props ↔
  ∃ id c, resolve id = Some c ∧ M = Partial (renderer_props (modulePath c)).
Proof.
  unfold LazyPropTypes. rewrite ComponentPropsUnion_modals.
  rewrite list_elem_of_fmap. setoid_rewrite list_elem_of_fmap. split.
  - intros (P & -> & [id c] & -> & Hin). exists id, c. split; [|done].
    destruct (modals_entry_unique id) as (c' & Hc' & Hfilter).
    assert ((id, c) ∈ filter (λ e, e.1 = id) modals) as Hf
      by by apply list_elem_of_filter.
    rewrite Hfilter in Hf. apply list_elem_of_singleton in Hf.
    congruence.
  - intros (id & c & Hc & ->). eexists. split; [done|].
    exists (id, c). split; [done|].
    destruct (modals_entry_unique id) as (c' & Hc' & Hfilter).
    assert (c' = c) as -> by congruence.
    assert ((id, c) ∈ filter (λ e, e.1 = id) modals) as Hf
      by (rewrite Hfilter; apply list_elem_of_here).
    by apply list_elem_of_filter in Hf as [_ ?].
Qed.

(** X6: every member of [LazyPropTypes] has optional properties only, so
    the empty object fits it; and each field a caller may supply for
    some modal is a property of a member, whether or not it was
    required there. *)
Theorem LazyPropTypes_all_optional :
  (∀ M, M ∈ LazyPropTypes renderer_props →
        Record_string_never_extends M = true ∧ RequiredKeys M = []) ∧
  (∀ id f, f ∈ contractOf renderer_props id →
           ∃ M, M ∈ LazyPropTypes renderer_props ∧ opt (fname f) ∈ M).
Proof.
  assert (∀ T, Record_string_never_extends (Partial T) = true) as Hpartial.
  { intros T. unfold Record_string_never_extends, Partial.
    induction T as [|f T IH]; [done|]. by rewrite fmap_cons. }
  split.
  - intros M (id & c & _ & ->)%elem_of_LazyPropTypes.
    split; [apply Hpartial|].
    apply elem_of_nil_inv. intros k Hk.
    apply elem_of_RequiredKeys in Hk as (f & Hf & _ & Hreq).
    unfold Partial in Hf. apply list_elem_of_fmap in Hf as (g & -> & _).
    done.
  - intros id f Hf. destruct (resolve_total id) as [c Hc].
    destruct (contractOf_resolve renderer_props id c Hc) as [_ Heq].
    rewrite Heq in Hf. apply elem_of_Omit in Hf as [Hin _].
    exists (Partial (renderer_props (modulePath c))). split.
    + apply elem_of_LazyPropTypes. by exists id, c.
    + unfold Partial. apply list_elem_of_fmap. by exists f.
Qed.

End DerivedTypes.

(** X17: whether [props] is mandatory depends on the required props of
    the component alone: two declarations of a component with the same
    required props give the same answer, so adding or removing optional
    props never makes [props] mandatory or optional. *)
Theorem payloadRequired_required_props_only
    (props1 props2 : string → ObjectType) (id : LazyModal) (c : DynamicComponent) :
  resolve id = Some c →
  (∀ f, foptional f = false →
        f ∈ props1 (modulePath c) ↔ f ∈ props2 (modulePath c)) →
  payloadRequired props1 id = payloadRequired props2 id.
Proof.
  intros Hc Hsame.
  pose proof (payloadRequired_true_resolve props1 id c Hc) as H1.
  pose proof (payloadRequired_true_resolve props2 id c Hc) as H2.
  assert (payloadRequired props1 id = true ↔ payloadRequired props2 id = true)
    as Hiff.
  { rewrite H1, H2. split; intros (f & Hin & Hreq & Hnames);
      exists f; (split; [by apply (Hsame f Hreq)|done]). }
  destruct (payloadRequired props1 id), (payloadRequired props2 id);
    try done;
    [pose proof (proj1 Hiff eq_refl)|pose proof (proj2 Hiff eq_refl)]; done.
Qed.

(** * Properties of the squad member menu *)

Section SquadMemberMenuFacts.

Import SquadMemberMenu.

Variable verifyPermission : Squad → SourcePermissions → bool.
Variable reportSquadMember : string.

Implicit Types (squad : Squad) (member : SourceMember) (user : User).
Implicit Types (title : MenuItemTitle) (r : SourceMemberRole).

(** X7: [getUpdateRoleOptions] always offers two role changes, to two
    different roles, neither of them the role the member has and neither
    [Blocked]; each option is labelled with its title and has no link. *)
Theorem getUpdateRoleOptions_other_roles {A : Type} member
    (getUpdateRoleFn : SourceMemberRole → MenuItemTitle → A) :
  ∃ r1 t1 i1 r2 t2 i2,
    getUpdateRoleOptions member getUpdateRoleFn =
      [ mkMenuItem (title_value t1) i1 (Some (getUpdateRoleFn r1 t1)) None;
        mkMenuItem (title_value t2) i2 (Some (getUpdateRoleFn r2 t2)) None ] ∧
    r1 ≠ r2 ∧ r1 ≠ role member ∧ r2 ≠ role member ∧
    r1 ≠ Blocked ∧ r2 ≠ Blocked ∧ t1 ≠ BlockMember ∧ t2 ≠ BlockMember.
Proof.
  destruct member as [[] u]; cbn; do 6 eexists;
    (split; [reflexivity|]); repeat split; discriminate.
Qed.

(** The shape of the menu, by what the viewer may do. *)
Lemma computeOptions_cases squad member user :
  computeOptions verifyPermission reportSquadMember squad (Some member) (Some user) =
  let report :=
    mkMenuItem "Report member" FlagIcon None
      (Some (mkAnchorProps
               (reportSquadMember ++ "#user_id=" ++ user_id user ++
                "&reportee_id=" ++ user_id (SquadMemberMenu.user member) ++
                "&squad_id=" ++ squad_id squad)
               "flex items-center w-full" "noopener noreferrer" "_blank")) in
  let block :=
    mkMenuItem "Block member" BlockIcon
      (Some (callOnUpdateMember Blocked BlockMember)) None in
  if verifyPermission squad MemberRoleUpdate
  then app (getUpdateRoleOptions member callOnUpdateMember) [report; block]
  else if verifyPermission squad MemberRemove && bool_decide (role member = Member)
       then [report; block]
       else [report].
Proof.
  unfold computeOptions.
  destruct (verifyPermission squad MemberRoleUpdate); cbn.
  - by rewrite <- app_assoc.
  - by destruct (verifyPermission squad MemberRemove && _).
Qed.

(** Calculated without a member or without a logged-in user the menu is
    empty; otherwise it has exactly one "Report member" entry, a link
    that opens the report form for the viewer, member and squad it was
    calculated for, in a new tab. *)
Lemma computeOptions_report_member squad (member : option SourceMember)
    (user : option User) :
  match member, user with
  | Some m, Some u =>
      filter (λ i, label i = "Report member")
        (computeOptions verifyPermission reportSquadMember squad member user) =
      [ mkMenuItem "Report member" FlagIcon None
          (Some (mkAnchorProps
                   (reportSquadMember ++ "#user_id=" ++ user_id u ++
                    "&reportee_id=" ++ user_id (SquadMemberMenu.user m) ++
                    "&squad_id=" ++ squad_id squad)
                   "flex items-center w-full" "noopener noreferrer" "_blank")) ]
  | _, _ => computeOptions verifyPermission reportSquadMember squad member user = []
  end.
Proof.
  destruct member as [m|], user as [u|]; try reflexivity.
  rewrite computeOptions_cases. cbv zeta.
  destruct (verifyPermission squad MemberRoleUpdate).
  - destruct m as [[] ?]; reflexivity.
  - destruct (verifyPermission squad MemberRemove && _); reflexivity.
Qed.



End SquadMemberMenuFacts.

Section OnUpdateMemberFacts.

Import SquadMemberMenu.

Implicit Types (squad : Squad) (member : SourceMember) (user : User).
Implicit Types (title : MenuItemTitle) (r : SourceMemberRole).
Implicit Types (hasConfirmed : option bool) (updated : option unit).

(** X11: [onUpdateMember] always asks first, once, with the title
    followed by a question mark and the title on the OK button; it
    calls [onUpdateRole] only after the prompt was confirmed, and then
    once, for this squad and member and with the role it was given. *)
Theorem onUpdateMember_update_after_confirm squad member r title
    hasConfirmed updated :
  (∃ o rest,
     (onUpdateMember squad member r title hasConfirmed updated).1 =
       showPrompt o :: rest ∧
     (∀ o', showPrompt o' ∉ rest) ∧
     prompt_title o = title_value title ++ "?" ∧
     okButton_title o = title_value title ∧
     content_user o = SquadMemberMenu.user member) ∧
  (∀ c, c ∈ (onUpdateMember squad member r title hasConfirmed updated).1 →
        is_onUpdateRole c = true →
        hasConfirmed = Some true ∧
        c = onUpdateRole (squad_id squad)
              (user_id (SquadMemberMenu.user member)) r) ∧
  (hasConfirmed = Some true →
   length (filter (λ c, is_onUpdateRole c = true)
             (onUpdateMember squad member r title hasConfirmed updated).1) = 1).
Proof.
  split; [|split].
  - unfold onUpdateMember.
    destruct hasConfirmed as [[]|], updated as [[]|], title; simpl;
      eexists _, _; (split; [reflexivity|]); (split; [|done]);
      intros o'; rewrite ?elem_of_cons, ?elem_of_nil; intuition discriminate.
  - intros c Hc Hupdate. revert Hc. unfold onUpdateMember.
    destruct hasConfirmed as [[]|], updated as [[]|], title; simpl;
      rewrite ?elem_of_cons, ?elem_of_nil;
      intros Hc; destruct_or?; subst; done.
  - intros ->. unfold onUpdateMember.
    destruct updated as [[]|], title; simpl; reflexivity.
Qed.

(** X12: a toast is shown only for "Block member", only after the prompt
    was confirmed and the role update went through, and it then reads
    "Member has been blocked"; the promise is rejected exactly when the
    prompt or the update is. *)
Theorem onUpdateMember_toast squad member r title hasConfirmed updated :
  (∀ message,
     displayToast message ∈
       (onUpdateMember squad member r title hasConfirmed updated).1 ↔
     hasConfirmed = Some true ∧ updated = Some () ∧ title = BlockMember ∧
     message = "Member has been blocked") ∧
  ((onUpdateMember squad member r title hasConfirmed updated).2 = Rejected ↔
   hasConfirmed = None ∨ (hasConfirmed = Some true ∧ updated = None)).
Proof.
  unfold onUpdateMember.
  destruct hasConfirmed as [[]|], updated as [[]|], title; simpl;
    (split; [intros message; rewrite ?elem_of_cons, ?elem_of_nil|]);
    intuition (discriminate || congruence).
Qed.

End OnUpdateMemberFacts.

Section MenuActionFacts.

Import SquadMemberMenu.

Variable verifyPermission : Squad → SourcePermissions → bool.
Variable reportSquadMember : string.

Implicit Types (squad : Squad) (member : SourceMember) (user : User).

(** An action of a calculated menu carries the title its entry is
    labelled with, and a role the member does not have, unless it
    blocks. *)
Lemma computeOptions_action squad member user i r title :
  i ∈ computeOptions verifyPermission reportSquadMember squad (Some member) (Some user) →
  action i = Some (callOnUpdateMember r title) →
  label i = title_value title ∧
  (r ≠ role member ∨ (r = Blocked ∧ title = BlockMember)).
Proof.
  rewrite computeOptions_cases. cbv zeta. intros Hi Haction.
  destruct (verifyPermission squad MemberRoleUpdate).
  - unfold getUpdateRoleOptions in Hi.
    destruct member as [[] ?]; simpl in Hi |- *;
      rewrite !elem_of_cons, elem_of_nil in Hi;
      destruct Hi as [->|[->|[->|[->|[]]]]]; simpl in Haction;
      try discriminate; injection Haction as <- <-;
      (split; [reflexivity|]); (by left) || (by right).
  - destruct (verifyPermission squad MemberRemove && _);
      rewrite !elem_of_cons, elem_of_nil in Hi.
    + destruct Hi as [->|[->|[]]]; simpl in Haction; try discriminate.
      injection Haction as <- <-. split; [reflexivity|]. by right.
    + destruct Hi as [->|[]]. discriminate.
Qed.

(** X13: choosing an entry of a calculated menu asks for confirmation
    under the entry's own label, shows a toast for "Block member" only,
    and updates the member to a role other than the present one, or
    blocks. *)
Theorem options_action_run squad member user i a hasConfirmed updated :
  i ∈ computeOptions verifyPermission reportSquadMember squad (Some member) (Some user) →
  action i = Some a →
  (∃ o rest, (run squad member a hasConfirmed updated).1 = showPrompt o :: rest ∧
             okButton_title o = label i ∧ prompt_title o = label i ++ "?") ∧
  (∀ message, displayToast message ∈ (run squad member a hasConfirmed updated).1 →
              label i = "Block member") ∧
  (∀ s m r, onUpdateRole s m r ∈ (run squad member a hasConfirmed updated).1 →
            r ≠ role member ∨ (r = Blocked ∧ label i = "Block member")).
Proof.
  intros Hi Haction. destruct a as [r title].
  destruct (computeOptions_action squad member user i r title Hi Haction)
    as [-> Hrole].
  unfold run, onUpdateMember. split; [|split].
  - destruct hasConfirmed as [[]|], updated as [[]|], title; simpl;
      eexists _, _; (split; [reflexivity|]); done.
  - intros message.
    destruct hasConfirmed as [[]|], updated as [[]|], title; simpl;
      rewrite ?elem_of_cons, ?elem_of_nil; intuition discriminate.
  - intros s m r'.
    destruct hasConfirmed as [[]|], updated as [[]|]; simpl;
      try (destruct (toastDescription title) as [msg|];
           [destruct (decide (msg = ""))|]); simpl;
      rewrite ?elem_of_cons, ?elem_of_nil;
      intros Hc; repeat (destruct Hc as [Hc|Hc]);
      try discriminate Hc; try contradiction;
      injection Hc as -> -> ->;
      (destruct Hrole as [?|[-> ->]]; [by left|by right]).
Qed.

End MenuActionFacts.

(** * The menu across renders *)

Section MemoFacts.

Import SquadMemberMenu.

Variable verifyPermission : Squad → SourcePermissions → bool.
Variable reportSquadMember : string.

Implicit Types (r : Render) (renders : list Render).
Implicit Types (cell : option (list (option nat) * list (MenuItemProps Action))).

(** The menu calculated from the values of a render. *)
#[local] Abbreviation calculated r :=
  (computeOptions verifyPermission reportSquadMember
     (render_squad r) (snd <$> render_member r) (render_user r)).

Lemma render_options_calculates r cell :
  (∀ v, cell ≠ Some ([member_address r], v)) →
  render_options verifyPermission reportSquadMember r cell =
    (calculated r, Some ([member_address r], calculated r)).
Proof.
  intros Hcell. unfold render_options, useMemo.
  destruct cell as [[previous value]|]; [|done].
  destruct (decide (previous = [member_address r])) as [->|]; [|done].
  by destruct (Hcell value).
Qed.

Lemma render_options_stored r v :
  render_options verifyPermission reportSquadMember r
    (Some ([member_address r], v)) = (v, Some ([member_address r], v)).
Proof. unfold render_options, useMemo. by rewrite decide_True. Qed.

Lemma render_options_cell r cell :
  (render_options verifyPermission reportSquadMember r cell).2 =
  Some ([member_address r],
        (render_options verifyPermission reportSquadMember r cell).1).
Proof.
  unfold render_options, useMemo.
  destruct cell as [[previous value]|]; [|done].
  by destruct (decide (previous = [member_address r])) as [->|].
Qed.

(** The cell after some renders. *)
#[local] Abbreviation cell_after cell renders :=
  (foldl (λ c r, (render_options verifyPermission reportSquadMember r c).2)
     cell renders).

Lemma options_from_app cell renders r later :
  options_from verifyPermission reportSquadMember cell
    (app renders (r :: later)) =
  options_from verifyPermission reportSquadMember (cell_after cell renders)
    (r :: later).
Proof.
  revert cell. induction renders as [|r' renders IH]; intros cell; [done|].
  specialize (IH (render_options verifyPermission reportSquadMember r' cell).2).
  destruct renders as [|r'' renders]; [done|]. exact IH.
Qed.

Lemma cell_after_last renders r :
  ∃ v, cell_after None (app renders [r]) = Some ([member_address r], v).
Proof.
  rewrite foldl_app. cbn. eexists. apply render_options_cell.
Qed.

Lemma options_from_stored a v renders :
  renders ≠ [] → Forall (λ r, member_address r = a) renders →
  options_from verifyPermission reportSquadMember (Some ([a], v)) renders =
    Some v.
Proof.
  induction renders as [|r later IH]; intros Hne Hsame; [done|].
  apply Forall_cons in Hsame as [<- Hsame].
  cbn [options_from]. rewrite render_options_stored. cbn.
  destruct later as [|r' later]; [done|]. by apply IH.
Qed.

(** The menu of a component is the one calculated at the last render
    that came first or with another member object than the render
    before it. *)
Lemma options_calculated renders r0 later :
  member_address <$> last renders ≠ Some (member_address r0) →
  Forall (λ r, member_address r = member_address r0) later →
  options verifyPermission reportSquadMember (app renders (r0 :: later)) =
    Some (calculated r0).
Proof.
  intros Hfresh Hsame. unfold options. rewrite options_from_app.
  assert (render_options verifyPermission reportSquadMember r0
            (cell_after None renders) =
          (calculated r0, Some ([member_address r0], calculated r0))) as Hr0.
  { apply render_options_calculates. intros v Hcell.
    destruct renders as [|r' renders _] using rev_ind; [done|].
    destruct (cell_after_last renders r') as [v' Hlast].
    rewrite Hlast in Hcell. rewrite last_snoc in Hfresh. cbn in Hfresh.
    congruence. }
  cbn [options_from]. rewrite Hr0. cbn.
  destruct later as [|r later]; [done|]. by apply options_from_stored.
Qed.

(** X18: [options] is calculated at the first render and at a render
    whose member is another object than at the render before; a render
    with the same member object returns the menu of the render before,
    whatever its squad, its user and the viewer's permissions. *)
Theorem options_memoized renders r' r :
  options verifyPermission reportSquadMember [r] =
    Some (computeOptions verifyPermission reportSquadMember
            (render_squad r) (snd <$> render_member r) (render_user r)) ∧
  (member_address r ≠ member_address r' →
   options verifyPermission reportSquadMember (app renders [r'; r]) =
     Some (computeOptions verifyPermission reportSquadMember
             (render_squad r) (snd <$> render_member r) (render_user r))) ∧
  (member_address r = member_address r' →
   options verifyPermission reportSquadMember (app renders [r'; r]) =
   options verifyPermission reportSquadMember (app renders [r'])).
Proof.
  split; [done|]. unfold options. rewrite !options_from_app.
  cbn [options_from]. rewrite render_options_cell. split.
  - intros Hother. rewrite render_options_calculates; [done|].
    intros v [= Hsame]. by rewrite Hsame in Hother.
  - intros Hsame. rewrite <- Hsame. by rewrite render_options_stored.
Qed.

(** X8: the menu shown is the one calculated at the last render that
    came first or with another member object than the render before.
    If the member or the logged-in user was missing then, the menu is
    empty, also when a later render has them; otherwise it has exactly
    one "Report member" entry, a link to the report form for the user
    and the squad of that render. *)
Theorem options_report_member renders r0 later :
  member_address <$> last renders ≠ Some (member_address r0) →
  Forall (λ r, member_address r = member_address r0) later →
  ∃ menu,
    options verifyPermission reportSquadMember (app renders (r0 :: later)) =
      Some menu ∧
    match render_member r0, render_user r0 with
    | Some (_, m), Some u =>
        filter (λ i, label i = "Report member") menu =
        [ mkMenuItem "Report member" FlagIcon None
            (Some (mkAnchorProps
                     (reportSquadMember ++ "#user_id=" ++ user_id u ++
                      "&reportee_id=" ++ user_id (SquadMemberMenu.user m) ++
                      "&squad_id=" ++ squad_id (render_squad r0))
                     "flex items-center w-full" "noopener noreferrer"
                     "_blank")) ]
    | _, _ => menu = []
    end.
Proof.
  intros Hfresh Hsame. eexists. split; [by apply options_calculated|].
  pose proof (computeOptions_report_member verifyPermission reportSquadMember
                (render_squad r0) (snd <$> render_member r0) (render_user r0))
    as Hreport.
  by destruct (render_member r0) as [[a m]|], (render_user r0) as [u|].
Qed.



End MemoFacts.

(** * Properties of the provider button *)

Section ProviderButtonFacts.

Import ProviderButton.

Lemma button_defaults_is_Some (a b c k : string) :
  is_Some ((<["justifyContent" := a]>
              (<["color" := b]> (<["fontWeight" := c]> ∅))
            : gmap string string) !! k) ↔
  k ∈ ["justifyContent"; "color"; "fontWeight"].
Proof.
  rewrite !elem_of_cons, elem_of_nil.
  destruct (decide (k = "justifyContent")) as [->|Hjustify].
  { rewrite lookup_insert_eq. split; [by left|by eexists]. }
  rewrite lookup_insert_ne; [|done].
  destruct (decide (k = "color")) as [->|Hcolor].
  { rewrite lookup_insert_eq. split; [by right; left|by eexists]. }
  rewrite lookup_insert_ne; [|done].
  destruct (decide (k = "fontWeight")) as [->|Hweight].
  { rewrite lookup_insert_eq. split; [by right; right; left|by eexists]. }
  rewrite lookup_insert_ne; [|done]. rewrite lookup_empty. split.
  - by intros [? ?].
  - intros [?|[?|[?|[]]]]; done.
Qed.

(** X14: the button has no text when the label is missing or empty, and
    reads "label provider" otherwise; unless the caller's style says
    otherwise, the content is centred exactly when there is no text. *)
Theorem ProviderButton_children (p : ProviderButtonProps) :
  (children (ProviderButton p) = "" ↔ label p = None ∨ label p = Some "") ∧
  (∀ l, label p = Some l → l ≠ "" →
        children (ProviderButton p) = l ++ " " ++ provider p) ∧
  ((style p ≫= (.!! "justifyContent")) = None →
   button_style (ProviderButton p) !! "justifyContent" =
     Some (if decide (children (ProviderButton p) = "")
           then "center" else "flex-start")).
Proof.
  unfold ProviderButton. simpl.
  assert (∀ k, (style p ≫= (.!! k)) = None → default ∅ (style p) !! k = None)
    as Hstyle by (intros k; by destruct (style p)).
  destruct (label p) as [l|] eqn:Hlabel; simpl.
  - destruct (decide (l = "")) as [->|Hne].
    + simpl. split; [split; auto|]. split.
      * intros l [= <-] Hne. by destruct Hne.
      * intros Hjustify. rewrite lookup_union_r; [done|]. by apply Hstyle.
    + rewrite (bool_decide_eq_false_2 _ Hne). simpl.
      assert (l ++ " " ++ provider p ≠ "") as Hne'
        by (destruct l; [done|discriminate]).
      split; [|split].
      * split; [done|]. intros [?|[= ?]]; done.
      * by intros ? [= <-] _.
      * intros Hjustify. rewrite decide_False; [|done].
        rewrite lookup_union_r; [done|]. by apply Hstyle.
  - split; [split; auto|]. split; [done|]. intros Hjustify.
    rewrite lookup_union_r; [done|]. by apply Hstyle.
Qed.

(** X15: every property of the caller's style reaches the button
    unchanged, also when it is one of the three the component sets;
    [color] and [fontWeight] are white and normal unless the caller
    sets them; and the button's style has the caller's properties and
    these three, no other. *)
Theorem ProviderButton_style (p : ProviderButtonProps) :
  (∀ k v, (style p ≫= (.!! k)) = Some v →
          button_style (ProviderButton p) !! k = Some v) ∧
  ((style p ≫= (.!! "color")) = None →
   button_style (ProviderButton p) !! "color" = Some "#FFFFFF") ∧
  ((style p ≫= (.!! "fontWeight")) = None →
   button_style (ProviderButton p) !! "fontWeight" = Some "normal") ∧
  (∀ k, is_Some (button_style (ProviderButton p) !! k) ↔
        is_Some (style p ≫= (.!! k)) ∨
        k ∈ ["justifyContent"; "color"; "fontWeight"]).
Proof.
  unfold ProviderButton. simpl.
  assert (∀ k, default ∅ (style p) !! k = style p ≫= (.!! k)) as Hstyle
    by (intros k; by destruct (style p)).
  split; [|split; [|split]].
  - intros k v Hk. apply lookup_union_Some_l. by rewrite Hstyle.
  - intros Hk. rewrite lookup_union_r; [done|]. by rewrite Hstyle.
  - intros Hk. rewrite lookup_union_r; [done|]. by rewrite Hstyle.
  - intros k. rewrite lookup_union_is_Some, Hstyle.
    by rewrite button_defaults_is_Some.
Qed.

End ProviderButtonFacts.

(** * Properties of the comment links *)

(** X16: [getCommentHash] puts "#c-" before the id and nothing after
    it, so the id can be read back and two different comments never
    share a hash. *)
Theorem getCommentHash_inj (id1 id2 : string) :
  (Comments.getCommentHash id1 = Comments.getCommentHash id2 ↔ id1 = id2) ∧
  String.prefix "#c-" (Comments.getCommentHash id1) = true ∧
  String.length (Comments.getCommentHash id1) = 3 + String.length id1 ∧
  String.substring 3 (String.length id1) (Comments.getCommentHash id1) = id1.
Proof.
  unfold Comments.getCommentHash. split; [|split; [|split]].
  - split; [|by intros ->]. simpl. by intros [= ?].
  - by destruct id1.
  - reflexivity.
  - change (String.substring 0 (String.length id1) id1 = id1).
    induction id1 as [|a id1 IH]; [done|]. simpl. by rewrite IH.
Qed.

(** ** The hypotheses above at concrete inputs *)

Lemma NonOptional_required_fields_witness :
  NoDup (keyof (stub_props "./UpvotedPopupModal")) ∧
  NonOptional (stub_props "./UpvotedPopupModal") = [req "title"; req "isOpen"].
Proof.
  assert (NoDup (keyof (stub_props "./UpvotedPopupModal"))) as Hnodup
    by (refine (bool_decide_unpack _ _); vm_compute; exact I).
  split; [exact Hnodup|].
  rewrite (NonOptional_required_fields _ Hnodup). reflexivity.
Defined.

Lemma options_action_run_witness :
  let squad := SquadMemberMenu.mkSquad "s1" "Rocq" in
  let member :=
    SquadMemberMenu.mkSourceMember SquadMemberMenu.Moderator
      (SquadMemberMenu.mkUser "u2" "Ada") in
  let viewer := SquadMemberMenu.mkUser "u1" "Bob" in
  let block :=
    SquadMemberMenu.mkMenuItem "Block member" SquadMemberMenu.BlockIcon
      (Some (SquadMemberMenu.callOnUpdateMember SquadMemberMenu.Blocked
               SquadMemberMenu.BlockMember)) None in
  block ∈ SquadMemberMenu.computeOptions (λ _ _, true) "/report" squad
            (Some member) (Some viewer) ∧
  ∀ message,
    SquadMemberMenu.displayToast message ∈
      (SquadMemberMenu.run squad member
         (SquadMemberMenu.callOnUpdateMember SquadMemberMenu.Blocked
            SquadMemberMenu.BlockMember) (Some true) (Some ())).1 →
    SquadMemberMenu.label block = "Block member".
Proof.
  cbv zeta.
  assert (SquadMemberMenu.mkMenuItem "Block member" SquadMemberMenu.BlockIcon
            (Some (SquadMemberMenu.callOnUpdateMember SquadMemberMenu.Blocked
                     SquadMemberMenu.BlockMember)) None
          ∈ SquadMemberMenu.computeOptions (λ _ _, true) "/report"
              (SquadMemberMenu.mkSquad "s1" "Rocq")
              (Some (SquadMemberMenu.mkSourceMember SquadMemberMenu.Moderator
                       (SquadMemberMenu.mkUser "u2" "Ada")))
              (Some (SquadMemberMenu.mkUser "u1" "Bob"))) as Hin.
  { vm_compute. repeat constructor. }
  split; [exact Hin|].
  exact (proj1 (proj2 (options_action_run (λ _ _, true) "/report" _ _ _ _ _
                         (Some true) (Some ()) Hin eq_refl))).
Defined.

Lemma payloadRequired_required_props_only_witness :
  payloadRequired stub_props ReportPost =
  payloadRequired stub_props_origin ReportPost.
Proof.
  apply (payloadRequired_required_props_only stub_props stub_props_origin
           ReportPost ReportPostModal eq_refl).
  intros f Hreq. unfold stub_props_origin. rewrite elem_of_app.
  split; [by left|]. intros [Hin|Hin]; [done|].
  apply list_elem_of_singleton in Hin. subst f. discriminate Hreq.
Defined.



(** ** The request literals of the spec's example *)

Example checkRequestLiteral_title :
  checkRequestLiteral stub_props UpvotedPopup (Some [("title", JsString "x")]) =
  Some (inl (mkModalRequest UpvotedPopup
               (Some (list_to_map [("title", JsString "x")])))).
Proof. vm_compute. reflexivity. Qed.

Example checkRequestLiteral_empty_literal :
  checkRequestLiteral stub_props UpvotedPopup (Some []) =
  Some (inr (Violation (MissingField "title") UpvotedPopup)).
Proof. vm_compute. reflexivity. Qed.

Example checkRequestLiteral_extra :
  checkRequestLiteral stub_props UpvotedPopup
    (Some [("title", JsString "x"); ("extra", JsNumber 1)]) =
  Some (inr (Violation (UnknownField "extra") UpvotedPopup)).
Proof. vm_compute. reflexivity. Qed.

Example checkRequestLiteral_no_props :
  checkRequestLiteral stub_props UpvotedPopup None =
  Some (inr (Violation MissingPayload UpvotedPopup)).
Proof. vm_compute. reflexivity. Qed.

(** ** A menu that outlives its render *)

(** In squad [s1] the viewer has every permission, elsewhere none.  The
    member object stays the same over two renders while the squad
    changes: the second render still shows the four entries calculated
    for [s1], where a menu calculated anew would have one. *)
Example options_stale :
  let verifyPermission :=
    λ squad (_ : SquadMemberMenu.SourcePermissions),
      bool_decide (SquadMemberMenu.squad_id squad = "s1") in
  let member :=
    SquadMemberMenu.mkSourceMember SquadMemberMenu.Moderator
      (SquadMemberMenu.mkUser "u2" "Ada") in
  let viewer := SquadMemberMenu.mkUser "u1" "Bob" in
  let r0 :=
    SquadMemberMenu.mkRender (SquadMemberMenu.mkSquad "s1" "Rocq")
      (Some (7, member)) (Some viewer) in
  let r1 :=
    SquadMemberMenu.mkRender (SquadMemberMenu.mkSquad "s2" "Lean")
      (Some (7, member)) (Some viewer) in
  length <$> SquadMemberMenu.options verifyPermission "/report" [r0; r1] =
    Some 4 ∧
  length <$> SquadMemberMenu.options verifyPermission "/report" [r1] = Some 1.
Proof. split; reflexivity. Qed.

Lemma options_report_member_witness :
  let r0 :=
    SquadMemberMenu.mkRender (SquadMemberMenu.mkSquad "s1" "Rocq")
      (Some (7, SquadMemberMenu.mkSourceMember SquadMemberMenu.Moderator
                  (SquadMemberMenu.mkUser "u2" "Ada")))
      None in
  let r1 :=
    SquadMemberMenu.mkRender (SquadMemberMenu.mkSquad "s1" "Rocq")
      (Some (7, SquadMemberMenu.mkSourceMember SquadMemberMenu.Moderator
                  (SquadMemberMenu.mkUser "u2" "Ada")))
      (Some (SquadMemberMenu.mkUser "u1" "Bob")) in
  (SquadMemberMenu.member_address <$> last [] ≠
     Some (SquadMemberMenu.member_address r0) ∧
   Forall (λ r, SquadMemberMenu.member_address r =
                SquadMemberMenu.member_address r0) [r1]) ∧
  SquadMemberMenu.options (λ _ _, true) "/report" [r0; r1] = Some [].
Proof.
  cbv zeta.
  match goal with
  | |- (?H1 ∧ ?H2) ∧ _ =>
      assert H1 as Hfresh by discriminate;
      assert H2 as Hsame by (repeat constructor)
  end.
  split; [by split|].
  destruct (options_report_member (λ _ _, true) "/report" [] _ _ Hfresh Hsame)
    as (menu & Hmenu & Hshape).
  cbn in Hshape. rewrite Hshape in Hmenu. exact Hmenu.
Defined.


